(** * Threshold study of the MLP score: [plot_interactive_cut]

    A shallow embedding of the last code cell of
    [Tutorial_ML_AI4Physics_training_interactive.ipynb], the function
    [plot_interactive_cut(threshold)] that the slider calls, and the
    properties of the three numbers it prints on the figure: signal
    efficiency, background rejection and sensitivity.

    Reading of the data.  The classifier scores, the threshold and the
    masses are float64 values in the notebook.  They are read here as the
    real numbers they denote, and [/], [-], [+] and [np.sqrt] as the exact
    operations on reals: rounding is not modelled.  The lengths are Python
    integers and are kept exact ([nat]).  The arrays are lists.  Where
    float64 would round, the theorems on the three numbers state the
    expression of the code itself, or bounds, not a simplified value.

    Reading of the effects.  The function reads four global arrays of the
    notebook, draws a figure and returns [None].  The notebook kernel is a
    record with the four arrays and the figures shown so far; a cell body is
    a computation in a state monad over it, with the Python exceptions of
    boolean indexing and of integer division as errors. *)

From Stdlib Require Import Reals List Bool Arith ZArith Lia Lra.
From Stdlib Require Import Permutation.
From ExtLib Require Import Structures.Monad Structures.MonadState Structures.MonadExc.
From ExtLib Require Import Data.Monads.StateMonad Data.Monads.EitherMonad.
Import ListNotations.
Import MonadNotation.

Local Open Scope monad_scope.
Local Open Scope R_scope.

#[local] Existing Instance Monad_stateT.

(** ** NumPy, pandas and Python primitives used by the cell *)

(** The exceptions the body can raise. *)
Inductive exn : Type :=
| ZeroDivisionError
| IndexError.

(** [x > y] on two scalars, as a boolean. *)
Definition gtb (x y : R) : bool :=
  if Rgt_dec x y then true else false.

(** [a > threshold]: NumPy broadcasts the scalar and compares elementwise. *)
Definition np_gt (a : list R) (threshold : R) : list bool :=
  map (fun x => gtb x threshold) a.

(** [a[mask]] with a boolean mask: the elements whose mask entry is [True],
    in order.  A mask of another length than [a] raises. *)
Fixpoint getitem {A : Type} (a : list A) (mask : list bool) : exn + list A :=
  match a, mask with
  | [], [] => inr []
  | x :: a', b :: mask' =>
      match getitem a' mask' with
      | inr r => inr (if b then x :: r else r)
      | inl e => inl e
      end
  | _, _ => inl IndexError
  end.

(** [len(a)]. *)
Definition len {A : Type} (a : list A) : nat := length a.

(** [p / q] on two Python integers: true division, which raises on [q = 0]. *)
Definition truediv (p q : nat) : exn + R :=
  match q with
  | O => inl ZeroDivisionError
  | S _ => inr (INR p / INR q)
  end.

(** ** The notebook kernel *)

(** What [plt.show()] puts on the screen for one call: the two score
    histograms with the cut line, the stacked mass histogram after the cut,
    and the three numbers of [plt.figtext] (before formatting). *)
Record Figure : Type := mkFigure {
  fig_scores_signal : list R;
  fig_scores_background : list R;
  fig_axvline : R;
  fig_mass_background_cut : list R;
  fig_mass_signal_cut : list R;
  fig_sensitivity : R;
  fig_signal_efficiency_pct : R;
  fig_background_rejection_pct : R
}.

(** The globals the cell reads, and the output area. *)
Record Kernel : Type := mkKernel {
  signal_probs : list R;
  background_probs : list R;
  mass_signal : list R;
  mass_background : list R;
  displayed : list Figure
}.

(** The local variables of [plot_interactive_cut] when its body ends.  The
    Python function returns [None]; the model returns these. *)
Record Locals : Type := mkLocals {
  signal_pass : list bool;
  background_pass : list bool;
  mass_signal_cut : list R;
  mass_background_cut : list R;
  signal_efficiency : R;
  background_rejection : R;
  sensitivity : R
}.

Definition cell : Type -> Type := stateT Kernel (sum exn).

(** Run a fallible primitive inside a cell. *)
Definition liftE {A : Type} (r : exn + A) : cell A :=
  match r with
  | inr a => ret a
  | inl e => raise e
  end.

(** [plt.show()]: the finished figure is appended to the output area;
    nothing else of the kernel changes. *)
Definition show (f : Figure) : cell unit :=
  k <- get ;;
  put {| signal_probs := signal_probs k;
         background_probs := background_probs k;
         mass_signal := mass_signal k;
         mass_background := mass_background k;
         displayed := displayed k ++ [f] |}.

(** ** The cell body *)

(** The statements of the Python body in their order.  A global is read
    where Python looks its name up; the value read is bound to the name
    with a trailing underscore, the plain name being the field of the
    kernel.  The two integer divisions are the ones that can raise; the
    last division is NumPy's, on [np.float64], which does not raise. *)
Definition plot_interactive_cut (threshold : R) : cell Locals :=
  (* left panel: histograms of the two score arrays and the cut line *)
  scores_signal <- gets signal_probs ;;
  scores_background <- gets background_probs ;;
  (* apply the threshold cut for signal and background *)
  signal_probs_ <- gets signal_probs ;;
  let signal_pass := np_gt signal_probs_ threshold in
  background_probs_ <- gets background_probs ;;
  let background_pass := np_gt background_probs_ threshold in
  (* the mass distributions of the events that pass the cut *)
  mass_signal_ <- gets mass_signal ;;
  mass_signal_cut <- liftE (getitem mass_signal_ signal_pass) ;;
  mass_background_ <- gets mass_background ;;
  mass_background_cut <- liftE (getitem mass_background_ background_pass) ;;
  (* signal efficiency *)
  signal_efficiency <-
    (if (0 <? len mass_signal_)%nat
     then liftE (truediv (len mass_signal_cut) (len mass_signal_))
     else ret 0) ;;
  (* background rejection *)
  background_rejection <-
    (if (0 <? len mass_background_)%nat
     then q <- liftE (truediv (len mass_background_cut) (len mass_background_)) ;;
          ret (1 - q)
     else ret 0) ;;
  (* sensitivity *)
  let sensitivity :=
    signal_efficiency / sqrt (INR (len mass_background_cut) + 1e-10) in
  (* right panel, the text box, and the display *)
  show {| fig_scores_signal := scores_signal;
          fig_scores_background := scores_background;
          fig_axvline := threshold;
          fig_mass_background_cut := mass_background_cut;
          fig_mass_signal_cut := mass_signal_cut;
          fig_sensitivity := sensitivity;
          fig_signal_efficiency_pct := signal_efficiency * 100;
          fig_background_rejection_pct := background_rejection * 100 |} ;;
  ret {| signal_pass := signal_pass;
         background_pass := background_pass;
         mass_signal_cut := mass_signal_cut;
         mass_background_cut := mass_background_cut;
         signal_efficiency := signal_efficiency;
         background_rejection := background_rejection;
         sensitivity := sensitivity |}.

(** The four globals are columns over the same rows: [signal_probs] are the
    predictions for the rows of [app_signal_data] and [mass_signal] is its
    mass column, and likewise for the background (cells before the function). *)
Definition aligned (k : Kernel) : Prop :=
  length (mass_signal k) = length (signal_probs k) /\
  length (mass_background k) = length (background_probs k).

(** The kernel after [plt.show()] of figure [f]. *)
Definition after_show (k : Kernel) (f : Figure) : Kernel :=
  {| signal_probs := signal_probs k;
     background_probs := background_probs k;
     mass_signal := mass_signal k;
     mass_background := mass_background k;
     displayed := displayed k ++ [f] |}.

(** A call from kernel [k] ends normally with locals [l] and kernel [k']. *)
Definition returns (k : Kernel) (threshold : R) (l : Locals) (k' : Kernel) : Prop :=
  runStateT (plot_interactive_cut threshold) k = inr (l, k').

(** ** The evaluation as the specification words it *)

Module Spec.

(** Count of the scores strictly greater than the threshold. *)
Fixpoint count_gt (scores : list R) (threshold : R) : nat :=
  match scores with
  | [] => O
  | x :: rest =>
      if Rgt_dec x threshold
      then S (count_gt rest threshold)
      else count_gt rest threshold
  end.

Record EvaluationResult : Type := mkResult {
  signal_pass_count : nat;
  background_pass_count : nat;
  signal_efficiency : R;
  background_rejection : R;
  sensitivity : R
}.

Definition evaluate (signalScores backgroundScores : list R) (threshold : R)
  : EvaluationResult :=
  let spc := count_gt signalScores threshold in
  let bpc := count_gt backgroundScores threshold in
  let eff :=
    match signalScores with
    | [] => 0
    | _ :: _ => INR spc / INR (length signalScores)
    end in
  let rej :=
    match backgroundScores with
    | [] => 0
    | _ :: _ => 1 - INR bpc / INR (length backgroundScores)
    end in
  {| signal_pass_count := spc;
     background_pass_count := bpc;
     signal_efficiency := eff;
     background_rejection := rej;
     sensitivity := eff / sqrt (INR bpc + 1e-10) |}.

End Spec.

(** ** What one call leaves behind *)

(** The figure a call draws from its locals. *)
Definition figure_of (k : Kernel) (threshold : R) (l : Locals) : Figure :=
  {| fig_scores_signal := signal_probs k;
     fig_scores_background := background_probs k;
     fig_axvline := threshold;
     fig_mass_background_cut := mass_background_cut l;
     fig_mass_signal_cut := mass_signal_cut l;
     fig_sensitivity := sensitivity l;
     fig_signal_efficiency_pct := signal_efficiency l * 100;
     fig_background_rejection_pct := background_rejection l * 100 |}.

(** The locals agree with the evaluation of the specification on the two
    score arrays. *)
Definition agrees (k : Kernel) (threshold : R) (l : Locals) : Prop :=
  let r := Spec.evaluate (signal_probs k) (background_probs k) threshold in
  len (mass_signal_cut l) = Spec.signal_pass_count r /\
  len (mass_background_cut l) = Spec.background_pass_count r /\
  signal_efficiency l = Spec.signal_efficiency r /\
  background_rejection l = Spec.background_rejection r /\
  sensitivity l = Spec.sensitivity r.

(** ** Sample kernels *)

(** The score arrays of the worked example, with two mass columns. *)
Definition example_signal : list R := [0.9; 0.8; 0.4; 0.2].
Definition example_background : list R := [0.7; 0.3; 0.1; 0.05].
Definition example_kernel : Kernel :=
  {| signal_probs := example_signal;
     background_probs := example_background;
     mass_signal := [5.01; 4.97; 5.2; 4.6];
     mass_background := [4.8; 5.3; 5.05; 4.9];
     displayed := [] |}.

(** The kernel of a notebook whose two application samples have no rows. *)
Definition empty_kernel : Kernel :=
  {| signal_probs := [];
     background_probs := [];
     mass_signal := [];
     mass_background := [];
     displayed := [] |}.

(** The same scores as [example_kernel] in a notebook that has other mass
    columns and has already shown a figure. *)
Definition example_kernel_later : Kernel :=
  {| signal_probs := example_signal;
     background_probs := example_background;
     mass_signal := [4.7; 5.4; 5.0; 5.1];
     mass_background := [5.2; 4.6; 4.9; 5.3];
     displayed :=
       [{| fig_scores_signal := example_signal;
           fig_scores_background := example_background;
           fig_axvline := 0.5;
           fig_mass_background_cut := [4.8];
           fig_mass_signal_cut := [5.01; 4.97];
           fig_sensitivity := 0.5 / sqrt (1 + 1e-10);
           fig_signal_efficiency_pct := 50;
           fig_background_rejection_pct := 75 |}] |}.

(** A signal sample with one score above 0.5 and [n] scores below it, and a
    background sample whose only score is below 0.5. *)
Definition crowd (n : nat) : Kernel :=
  {| signal_probs := 0.9 :: repeat 0.1 n;
     background_probs := [0.2];
     mass_signal := 5.01 :: repeat 4.9 n;
     mass_background := [4.8];
     displayed := [] |}.

(** 200000 signal events. *)
Definition large_sample : Kernel := crowd (Z.to_nat 199999).

(** ** The body in closed form, and calls in a row *)

(** The locals a call ends with, given the two arrays that the boolean
    indexing returned. *)
Definition locals_of (k : Kernel) (threshold : R) (sc bc : list R) : Locals :=
  let eff :=
    if (0 <? len (mass_signal k))%nat
    then INR (len sc) / INR (len (mass_signal k))
    else 0 in
  let rej :=
    if (0 <? len (mass_background k))%nat
    then 1 - INR (len bc) / INR (len (mass_background k))
    else 0 in
  {| signal_pass := np_gt (signal_probs k) threshold;
     background_pass := np_gt (background_probs k) threshold;
     mass_signal_cut := sc;
     mass_background_cut := bc;
     signal_efficiency := eff;
     background_rejection := rej;
     sensitivity := eff / sqrt (INR (len bc) + 1e-10) |}.

(** [interactive(plot_interactive_cut, threshold=threshold_slider)] calls
    the function once for each value the slider takes: the calls for the
    values [ts], in order, on the same kernel. *)
Fixpoint calls (ts : list R) : cell (list Locals) :=
  match ts with
  | [] => ret []
  | t :: rest =>
      l <- plot_interactive_cut t ;;
      ls <- calls rest ;;
      ret (l :: ls)
  end.

(** [small] is [big] with some elements left out, the others in order. *)
Inductive subseq {A : Type} : list A -> list A -> Prop :=
| subseq_nil : subseq [] []
| subseq_skip (x : A) (small big : list A) :
    subseq small big -> subseq small (x :: big)
| subseq_take (x : A) (small big : list A) :
    subseq small big -> subseq (x :: small) (x :: big).

(** The events of an array of masses with their scores whose score is above
    the threshold: what the cut is meant to keep. *)
Definition passing (masses scores : list R) (threshold : R) : list R :=
  map fst (filter (fun p => gtb (snd p) threshold) (combine masses scores)).

(** The locals of a call on aligned globals. *)
Definition call_locals (k : Kernel) (threshold : R) : Locals :=
  locals_of k threshold
    (passing (mass_signal k) (signal_probs k) threshold)
    (passing (mass_background k) (background_probs k) threshold).

(** The arrays of [k] with another output area. *)
Definition with_displayed (k : Kernel) (figs : list Figure) : Kernel :=
  {| signal_probs := signal_probs k;
     background_probs := background_probs k;
     mass_signal := mass_signal k;
     mass_background := mass_background k;
     displayed := figs |}.

(** Two kernels hold the same four arrays. *)
Definition same_arrays (k k' : Kernel) : Prop :=
  signal_probs k' = signal_probs k /\
  background_probs k' = background_probs k /\
  mass_signal k' = mass_signal k /\
  mass_background k' = mass_background k.

(** ** The cells that load and clean the data *)

(** One row of a data frame read with [tree.arrays(branches, library="pd")]:
    the sixteen kinematic columns ([raw_variables], which are also the
    columns [selected] for the classifier), the two generator-level mother
    codes and the mass. *)
Record Event : Type := mkEvent {
  raw : list R;
  Zp_tau_0_dau_genMotherPDG : R;
  Zp_tau_1_dau_genMotherPDG : R;
  Zp_M_beforeFit : R
}.

Definition DataFrame : Type := list Event.

(** [x < y] and [x == y] on two scalars. *)
Definition float_lt (x y : R) : bool :=
  if Rlt_dec x y then true else false.

Definition float_eq (x y : R) : bool :=
  if Req_dec_T x y then true else false.

(** [a < c] and [a == c] of a column with a scalar, elementwise. *)
Definition np_lt (a : list R) (c : R) : list bool :=
  map (fun x => float_lt x c) a.

Definition np_eq (a : list R) (c : R) : list bool :=
  map (fun x => float_eq x c) a.

(** [m1 & m2] of two boolean columns of one frame, elementwise. *)
Fixpoint np_and (m1 m2 : list bool) : list bool :=
  match m1, m2 with
  | b1 :: m1', b2 :: m2' => (b1 && b2) :: np_and m1' m2'
  | _, _ => []
  end.

(** [df[(df['Zp_tau_0_dau_genMotherPDG'] == 26) &
        (df['Zp_tau_1_dau_genMotherPDG'] == 26)]]. *)
Definition cut_signal (df : DataFrame) : exn + DataFrame :=
  getitem df
    (np_and (np_eq (map Zp_tau_0_dau_genMotherPDG df) 26)
            (np_eq (map Zp_tau_1_dau_genMotherPDG df) 26)).

(** [df[(df['Zp_M_beforeFit'] > 4.5) & (df['Zp_M_beforeFit'] < 5.5)]]. *)
Definition cut_background (df : DataFrame) : exn + DataFrame :=
  getitem df
    (np_and (np_gt (map Zp_M_beforeFit df) 4.5)
            (np_lt (map Zp_M_beforeFit df) 5.5)).

(** The row predicates the two cuts compute. *)
Definition is_signal (e : Event) : bool :=
  float_eq (Zp_tau_0_dau_genMotherPDG e) 26 &&
  float_eq (Zp_tau_1_dau_genMotherPDG e) 26.

Definition in_mass_window (e : Event) : bool :=
  gtb (Zp_M_beforeFit e) 4.5 && float_lt (Zp_M_beforeFit e) 5.5.

(** ** The cells that build the training sample *)

Definition np_ones (n : nat) : list R := repeat 1 n.
Definition np_zeros (n : nat) : list R := repeat 0 n.

(** [X_signal = signal_data[selected].values] and so on, up to
    [X = np.vstack((X_signal, X_background))] and
    [y = np.hstack((y_signal, y_background))]. *)
Definition training_sample (signal_data background_data : DataFrame)
  : list (list R) * list R :=
  let X_signal := map raw signal_data in
  let X_background := map raw background_data in
  let y_signal := np_ones (len signal_data) in
  let y_background := np_zeros (len background_data) in
  (X_signal ++ X_background, y_signal ++ y_background).

(** ** The cell that draws the scores of the test sample *)

(** [y_prob[y_test == 1]] and [y_prob[y_test == 0]], the two arrays that the
    cell gives to [plt.hist]. *)
Definition test_scores_by_label (y_prob y_test : list R)
  : exn + (list R * list R) :=
  match getitem y_prob (np_eq y_test 1) with
  | inl e => inl e
  | inr scores_signal =>
      match getitem y_prob (np_eq y_test 0) with
      | inl e => inl e
      | inr scores_background => inr (scores_signal, scores_background)
      end
  end.

(** ** The cells that prepare the globals of [plot_interactive_cut] *)

(** The cells from the cut of the application sample to the two mass
    columns.  [scaler.transform], [mlp.predict] and [mlp.predict_proba] are
    library calls and are parameters here; each may raise ([None]).
    [predict_proba] returns one pair of class probabilities for each row,
    and [[:, 1]] takes the second of the pair.  [None] is any exception. *)
Definition prepare
    (scaler_transform : list (list R) -> option (list (list R)))
    (mlp_predict : list (list R) -> option (list R))
    (mlp_predict_proba : list (list R) -> option (list (R * R)))
    (app_signal_data app_background_data : DataFrame) : option Kernel :=
  match cut_signal app_signal_data with
  | inl _ => None
  | inr app_signal_data =>
  match cut_background app_background_data with
  | inl _ => None
  | inr app_background_data =>
  let app_X_signal := map raw app_signal_data in
  let app_X_background := map raw app_background_data in
  match scaler_transform app_X_signal with
  | None => None
  | Some app_X_signal_new =>
  match scaler_transform app_X_background with
  | None => None
  | Some app_X_background_new =>
  match mlp_predict app_X_signal_new with
  | None => None
  | Some signal_predictions =>
  match mlp_predict app_X_background_new with
  | None => None
  | Some background_predictions =>
  match mlp_predict_proba app_X_signal_new with
  | None => None
  | Some signal_proba =>
  match mlp_predict_proba app_X_background_new with
  | None => None
  | Some background_proba =>
  Some {| signal_probs := map snd signal_proba;
          background_probs := map snd background_proba;
          mass_signal := map Zp_M_beforeFit app_signal_data;
          mass_background := map Zp_M_beforeFit app_background_data;
          displayed := [] |}
  end end end end end end end end.

(** A toy scaler and classifier, and sample frames. *)
Definition toy_transform (X : list (list R)) : option (list (list R)) :=
  match X with
  | [] => None
  | _ :: _ => Some (map (map (fun x => x / 2)) X)
  end.

Definition toy_predict (X : list (list R)) : option (list R) :=
  match X with
  | [] => None
  | _ :: _ => Some (map (fun _ => 1) X)
  end.

Definition toy_predict_proba (X : list (list R)) : option (list (R * R)) :=
  match X with
  | [] => None
  | _ :: _ => Some (map (fun _ => (0.25, 0.75)) X)
  end.

Definition sample_signal_frame : DataFrame :=
  [ mkEvent [1.5; 0.3] 26 26 5.02;
    mkEvent [0.7; 2.1] 26 13 4.10;
    mkEvent [2.2; 0.9] 26 26 6.30 ].

Definition sample_background_frame : DataFrame :=
  [ mkEvent [0.4; 0.4] 0 0 4.50;
    mkEvent [1.1; 3.0] 0 0 5.10;
    mkEvent [0.2; 1.8] 0 0 5.60;
    mkEvent [0.9; 0.1] 0 0 4.70 ].

(** The events of [example_kernel] in another order. *)
Definition example_kernel_shuffled : Kernel :=
  {| signal_probs := [0.4; 0.9; 0.2; 0.8];
     background_probs := [0.05; 0.1; 0.3; 0.7];
     mass_signal := [5.2; 5.01; 4.6; 4.97];
     mass_background := [4.9; 5.05; 5.3; 4.8];
     displayed := [] |}.

(** The kernel the preparation cells leave for the sample frames and the
    toy classifier. *)
Definition prepared_sample : Kernel :=
  {| signal_probs := [0.75; 0.75];
     background_probs := [0.75; 0.75];
     mass_signal := [5.02; 6.30];
     mass_background := [5.10; 4.70];
     displayed := [] |}.

(** Three test events: scores and labels. *)
Definition sample_y_prob : list R := [0.9; 0.2; 0.6].
Definition sample_y_test : list R := [1; 0; 1].

(** Globals out of step: three signal scores for two masses. *)
Definition misaligned_kernel : Kernel :=
  {| signal_probs := [0.9; 0.8; 0.4];
     background_probs := [0.7; 0.3];
     mass_signal := [5.01; 4.97];
     mass_background := [4.8; 5.3];
     displayed := [] |}.

(** A signal sample with three scores above 0.5 and [n] scores below it, and
    a background sample whose only score is below 0.5. *)
Definition crowd_three (n : nat) : Kernel :=
  {| signal_probs := 0.9 :: 0.8 :: 0.7 :: repeat 0.1 n;
     background_probs := [0.2];
     mass_signal := 5.01 :: 4.97 :: 5.2 :: repeat 4.9 n;
     mass_background := [4.8];
     displayed := [] |}.

(** 200000 signal events, three of them above 0.5. *)
Definition large_sample_three : Kernel := crowd_three (Z.to_nat 199997).

(** * Properties *)

(** ** Counting the scores above a threshold *)

Section Counting.

Variable threshold : R.

Lemma count_gt_le_length (scores : list R) :
  (Spec.count_gt scores threshold <= length scores)%nat.
Proof.
  induction scores as [| x rest IH]; simpl; [lia |].
  destruct (Rgt_dec x threshold); lia.
Qed.

Lemma count_gt_all (scores : list R) :
  Forall (fun x => x > threshold) scores ->
  Spec.count_gt scores threshold = length scores.
Proof.
  induction 1 as [| x rest Hx _ IH]; simpl; [reflexivity |].
  destruct (Rgt_dec x threshold); [now rewrite IH | contradiction].
Qed.

Lemma count_gt_none (scores : list R) :
  Forall (fun x => x <= threshold) scores ->
  Spec.count_gt scores threshold = O.
Proof.
  induction 1 as [| x rest Hx _ IH]; simpl; [reflexivity |].
  destruct (Rgt_dec x threshold); [lra | exact IH].
Qed.

Lemma count_gt_some (scores : list R) :
  Exists (fun x => x > threshold) scores ->
  (1 <= Spec.count_gt scores threshold)%nat.
Proof.
  induction 1 as [x rest Hx | x rest _ IH]; simpl;
    destruct (Rgt_dec x threshold); try lia; contradiction.
Qed.

(** Boolean indexing by the mask of [scores > threshold] keeps as many
    elements as there are scores above the threshold, whatever the indexed
    array holds, and it raises exactly when the lengths differ. *)
Lemma getitem_np_gt {A : Type} (a : list A) (scores : list R) :
  length a = length scores ->
  exists r, getitem a (np_gt scores threshold) = inr r /\
            length r = Spec.count_gt scores threshold.
Proof.
  revert scores.
  induction a as [| x a IH]; intros [| s scores] Hlen; simpl in Hlen;
    try discriminate.
  - exists []. split; reflexivity.
  - destruct (IH scores) as [r [Hr Hc]]; [lia |].
    simpl. fold (np_gt scores threshold). rewrite Hr.
    unfold gtb. destruct (Rgt_dec s threshold); eexists; split;
      try reflexivity; simpl; now rewrite Hc.
Qed.

Lemma getitem_length_mismatch {A : Type} (a : list A) (mask : list bool) :
  length a <> length mask -> getitem a mask = inl IndexError.
Proof.
  revert mask.
  induction a as [| x a IH]; intros [| b mask] Hlen; simpl in *;
    try reflexivity; try congruence.
  rewrite IH; [reflexivity | lia].
Qed.

End Counting.

(** A higher threshold lets fewer scores pass. *)
Lemma count_gt_antitone (scores : list R) (t1 t2 : R) :
  t1 <= t2 ->
  (Spec.count_gt scores t2 <= Spec.count_gt scores t1)%nat.
Proof.
  intros Ht.
  induction scores as [| x rest IH]; simpl; [lia |].
  destruct (Rgt_dec x t2), (Rgt_dec x t1); try lia; lra.
Qed.

(** ** Ratios of lengths *)

Lemma INR_length_pos {A : Type} (x : A) (l : list A) : 0 < INR (length (x :: l)).
Proof. apply lt_0_INR. simpl. lia. Qed.

Lemma ratio_bounds (c n : nat) :
  (c <= n)%nat -> (0 < n)%nat -> 0 <= INR c / INR n <= 1.
Proof.
  intros Hc Hn.
  assert (Hn' : 0 < INR n) by now apply lt_0_INR.
  assert (Hc' : INR c <= INR n) by now apply le_INR.
  assert (H0 : 0 <= INR c) by apply pos_INR.
  split.
  - apply Rmult_le_pos; [lra |]. left. now apply Rinv_0_lt_compat.
  - apply Rmult_le_reg_r with (INR n); [lra |].
    unfold Rdiv. rewrite Rmult_assoc, Rinv_l; lra.
Qed.

Lemma ratio_mono (c1 c2 n : nat) :
  (c1 <= c2)%nat -> INR c1 / INR n <= INR c2 / INR n.
Proof.
  intros Hc. destruct n as [| n].
  - simpl. unfold Rdiv. rewrite Rinv_0. lra.
  - apply Rmult_le_compat_r.
    + left. apply Rinv_0_lt_compat, lt_0_INR. lia.
    + now apply le_INR.
Qed.

Lemma ratio_full (n : nat) : (0 < n)%nat -> INR n / INR n = 1.
Proof.
  intros Hn. unfold Rdiv. apply Rinv_r.
  apply not_0_INR. lia.
Qed.

Lemma ratio_zero (n : nat) : INR 0 / INR n = 0.
Proof. simpl. unfold Rdiv. lra. Qed.

(** The offset under the square root keeps the divisor of the sensitivity
    away from zero. *)
Lemma sensitivity_divisor_pos (n : nat) : 0 < sqrt (INR n + 1e-10).
Proof.
  apply sqrt_lt_R0.
  pose proof (pos_INR n). lra.
Qed.

Lemma sqrt_offset : sqrt 1e-10 = 1e-5.
Proof. apply sqrt_lem_1; lra. Qed.

(** ** What one call does *)

Lemma run_liftE {A : Type} (r : exn + A) (a : A) (k : Kernel) :
  r = inr a -> runStateT (liftE r) k = inr (a, k).
Proof. intros ->. reflexivity. Qed.

(** On aligned globals the body runs to its end, shows one figure and
    leaves locals that agree with the specification. *)
Lemma plot_interactive_cut_run (k : Kernel) (threshold : R) :
  aligned k ->
  exists l,
    returns k threshold l (after_show k (figure_of k threshold l)) /\
    agrees k threshold l.
Proof.
  destruct k as [sp bp ms mb figs].
  unfold aligned, returns, agrees, after_show, figure_of; simpl.
  intros [Hs Hb].
  destruct (getitem_np_gt threshold ms sp Hs) as [sc [Hsc Hsn]].
  destruct (getitem_np_gt threshold mb bp Hb) as [bc [Hbc Hbn]].
  unfold plot_interactive_cut. simpl.
  rewrite (run_liftE _ sc _ Hsc), (run_liftE _ bc _ Hbc).
  unfold len.
  destruct ms as [| ms0 ms]; destruct sp as [| sp0 sp]; try discriminate Hs;
    destruct mb as [| mb0 mb]; destruct bp as [| bp0 bp]; try discriminate Hb;
    simpl;
    lazymatch goal with
    | |- exists l, inr (?v, _) = _ /\ _ => exists v
    end;
    (split; [reflexivity |]);
    unfold Spec.evaluate; cbn [Spec.signal_pass_count Spec.background_pass_count
      Spec.signal_efficiency Spec.background_rejection Spec.sensitivity
      mass_signal_cut mass_background_cut signal_efficiency
      background_rejection sensitivity];
    simpl in Hs, Hb; try injection Hs as Hs; try injection Hb as Hb;
    rewrite ?Hsn, ?Hbn, ?Hs, ?Hb; repeat split; reflexivity.
Qed.

(** When a mass column and its score array differ in length, the boolean
    indexing raises and nothing is shown. *)
Lemma plot_interactive_cut_misaligned (k : Kernel) (threshold : R) :
  length (mass_signal k) <> length (signal_probs k) ->
  runStateT (plot_interactive_cut threshold) k = inl IndexError.
Proof.
  destruct k as [sp bp ms mb figs]. simpl. intros Hlen.
  unfold plot_interactive_cut. simpl.
  rewrite getitem_length_mismatch; [reflexivity |].
  unfold np_gt. now rewrite length_map.
Qed.

Ltac decide_gt :=
  repeat match goal with
         | |- context [Rgt_dec ?x ?y] => destruct (Rgt_dec x y); try lra
         end.

Ltac run_call k t Hal l Hr Ha :=
  destruct (plot_interactive_cut_run k t Hal) as [l [Hr Ha]];
  unfold agrees in Ha; cbv zeta in Ha.

(** C1.  On aligned globals a call ends normally, and its locals are the
    evaluation of the specification on [signal_probs], [background_probs]
    and the threshold: the two pass counts are the numbers of scores
    strictly above the threshold, the signal efficiency is the signal pass
    count over the number of signal scores (0 without scores), the
    background rejection is 1 minus the background pass count over the
    number of background scores (0 without scores), and the sensitivity is
    the signal efficiency over [sqrt (background pass count + 1e-10)]. *)
Theorem C1_locals_follow_spec (k : Kernel) (threshold : R) :
  aligned k ->
  exists l k',
    returns k threshold l k' /\
    len (mass_signal_cut l) = Spec.count_gt (signal_probs k) threshold /\
    len (mass_background_cut l) = Spec.count_gt (background_probs k) threshold /\
    signal_efficiency l =
      match signal_probs k with
      | [] => 0
      | _ :: _ => INR (len (mass_signal_cut l)) / INR (length (signal_probs k))
      end /\
    background_rejection l =
      match background_probs k with
      | [] => 0
      | _ :: _ =>
          1 - INR (len (mass_background_cut l)) / INR (length (background_probs k))
      end /\
    sensitivity l =
      signal_efficiency l / sqrt (INR (len (mass_background_cut l)) + 1e-10) /\
    (let r := Spec.evaluate (signal_probs k) (background_probs k) threshold in
     len (mass_signal_cut l) = Spec.signal_pass_count r /\
     len (mass_background_cut l) = Spec.background_pass_count r /\
     signal_efficiency l = Spec.signal_efficiency r /\
     background_rejection l = Spec.background_rejection r /\
     sensitivity l = Spec.sensitivity r).
Proof.
  intros Hal. run_call k threshold Hal l Hr Ha.
  exists l, (after_show k (figure_of k threshold l)).
  split; [exact Hr |].
  destruct Ha as (A1 & A2 & A3 & A4 & A5).
  unfold Spec.evaluate in *; simpl in A1, A2, A3, A4, A5.
  rewrite A5, A3, A4, A1, A2.
  repeat split; reflexivity.
Qed.

Lemma C1_witness :
  aligned example_kernel /\
  exists l k',
    returns example_kernel 0.5 l k' /\
    len (mass_signal_cut l) = Spec.count_gt example_signal 0.5.
Proof.
  split; [split; reflexivity |].
  destruct (C1_locals_follow_spec example_kernel 0.5) as (l & k' & Hr & H1 & _);
    [split; reflexivity |].
  exists l, k'. split; assumption.
Defined.

(** C2.  With signal scores [0.9, 0.8, 0.4, 0.2] and background scores
    [0.7, 0.3, 0.1, 0.05] (and any two mass columns of four rows): at
    threshold 0.5 two signal scores and one background score pass, the
    signal efficiency is 0.5, the background rejection 0.75 and the
    sensitivity [0.5 / sqrt (1 + 1e-10)]; at threshold 0 the efficiency is 1
    and the rejection 0; at threshold 1 the efficiency is 0 and the
    rejection 1. *)
Theorem C2_worked_example (ms mb : list R) (figs : list Figure) :
  length ms = 4%nat ->
  length mb = 4%nat ->
  let k := {| signal_probs := [0.9; 0.8; 0.4; 0.2];
              background_probs := [0.7; 0.3; 0.1; 0.05];
              mass_signal := ms;
              mass_background := mb;
              displayed := figs |} in
  (exists l k',
      returns k 0.5 l k' /\
      len (mass_signal_cut l) = 2%nat /\
      signal_efficiency l = 0.5 /\
      len (mass_background_cut l) = 1%nat /\
      background_rejection l = 0.75 /\
      sensitivity l = 0.5 / sqrt (1 + 1e-10)) /\
  (exists l k',
      returns k 0 l k' /\
      signal_efficiency l = 1 /\ background_rejection l = 0) /\
  (exists l k',
      returns k 1 l k' /\
      signal_efficiency l = 0 /\ background_rejection l = 1).
Proof.
  intros Hms Hmb k.
  assert (Hal : aligned k) by (split; assumption).
  split; [| split].
  - run_call k 0.5 Hal l Hr Ha. exists l; eexists; split; [exact Hr |].
    destruct Ha as (A1 & A2 & A3 & A4 & A5).
    rewrite A1, A2, A3, A4, A5. unfold Spec.evaluate. simpl.
    decide_gt. simpl.
    repeat split; lra.
  - run_call k 0 Hal l Hr Ha. exists l; eexists; split; [exact Hr |].
    destruct Ha as (_ & _ & A3 & A4 & _).
    rewrite A3, A4. unfold Spec.evaluate. simpl.
    decide_gt. simpl. split; lra.
  - run_call k 1 Hal l Hr Ha. exists l; eexists; split; [exact Hr |].
    destruct Ha as (_ & _ & A3 & A4 & _).
    rewrite A3, A4. unfold Spec.evaluate. simpl.
    decide_gt. simpl. split; lra.
Qed.

Lemma C2_witness :
  length (mass_signal example_kernel) = 4%nat /\
  length (mass_background example_kernel) = 4%nat /\
  exists l k',
    returns example_kernel 0.5 l k' /\
    len (mass_signal_cut l) = 2%nat /\
    signal_efficiency l = 0.5 /\
    len (mass_background_cut l) = 1%nat /\
    background_rejection l = 0.75 /\
    sensitivity l = 0.5 / sqrt (1 + 1e-10).
Proof.
  split; [reflexivity | split; [reflexivity |]].
  exact (proj1 (C2_worked_example
                  (mass_signal example_kernel) (mass_background example_kernel)
                  [] eq_refl eq_refl)).
Defined.

(** C3.  On aligned globals a call always ends normally (no
    [ZeroDivisionError], no other exception); without signal scores the
    signal efficiency is 0, and without background scores the background
    rejection is 0, whatever the threshold.  The divisor of the sensitivity
    is positive, so that division is not by zero either. *)
Theorem C3_empty_score_sets (k : Kernel) (threshold : R) :
  aligned k ->
  exists l k',
    returns k threshold l k' /\
    (signal_probs k = [] -> signal_efficiency l = 0) /\
    (background_probs k = [] -> background_rejection l = 0) /\
    0 < sqrt (INR (len (mass_background_cut l)) + 1e-10).
Proof.
  intros Hal. run_call k threshold Hal l Hr Ha.
  exists l; eexists; split; [exact Hr |].
  destruct Ha as (_ & _ & A3 & A4 & _).
  rewrite A3, A4. unfold Spec.evaluate. simpl.
  split; [intros ->; reflexivity |].
  split; [intros ->; reflexivity |].
  apply sensitivity_divisor_pos.
Qed.

Lemma C3_witness :
  aligned empty_kernel /\
  exists l k',
    returns empty_kernel 0.5 l k' /\
    (signal_probs empty_kernel = [] -> signal_efficiency l = 0) /\
    (background_probs empty_kernel = [] -> background_rejection l = 0) /\
    0 < sqrt (INR (len (mass_background_cut l)) + 1e-10).
Proof.
  split; [split; reflexivity |].
  apply (C3_empty_score_sets empty_kernel 0.5). split; reflexivity.
Defined.

(** C4.  For score arrays of any length, empty ones included, and any
    threshold, the signal efficiency and the background rejection of a call
    lie in the closed interval from 0 to 1. *)
Theorem C4_efficiency_rejection_in_unit_interval (k : Kernel) (threshold : R) :
  aligned k ->
  exists l k',
    returns k threshold l k' /\
    0 <= signal_efficiency l <= 1 /\
    0 <= background_rejection l <= 1.
Proof.
  intros Hal. run_call k threshold Hal l Hr Ha.
  exists l; eexists; split; [exact Hr |].
  destruct Ha as (_ & _ & A3 & A4 & _).
  rewrite A3, A4. unfold Spec.evaluate. simpl.
  split.
  - destruct (signal_probs k) as [| x s] eqn:E; [lra |].
    apply ratio_bounds; [apply count_gt_le_length | simpl; lia].
  - destruct (background_probs k) as [| x s] eqn:E; [lra |].
    pose proof (ratio_bounds (Spec.count_gt (x :: s) threshold) (length (x :: s))
                  (count_gt_le_length threshold (x :: s))) as Hb.
    assert (0 < length (x :: s))%nat as Hn by (simpl; lia).
    specialize (Hb Hn). lra.
Qed.

Lemma C4_witness :
  aligned example_kernel /\
  exists l k',
    returns example_kernel 0.5 l k' /\
    0 <= signal_efficiency l <= 1 /\
    0 <= background_rejection l <= 1.
Proof.
  split; [split; reflexivity |].
  apply (C4_efficiency_rejection_in_unit_interval example_kernel 0.5).
  split; reflexivity.
Defined.

(** C5.  For fixed score arrays the signal efficiency does not increase
    with the threshold: if [t1 <= t2] (in particular for two thresholds of
    the slider, between 0 and 1), the efficiency at [t2] is at most the
    efficiency at [t1]. *)
Theorem C5_signal_efficiency_antitone (k : Kernel) (t1 t2 : R) :
  aligned k ->
  t1 <= t2 ->
  exists l1 k1 l2 k2,
    returns k t1 l1 k1 /\
    returns k t2 l2 k2 /\
    signal_efficiency l2 <= signal_efficiency l1.
Proof.
  intros Hal Ht.
  run_call k t1 Hal l1 Hr1 Ha1. run_call k t2 Hal l2 Hr2 Ha2.
  exists l1; eexists; exists l2; eexists.
  split; [exact Hr1 | split; [exact Hr2 |]].
  destruct Ha1 as (_ & _ & A1 & _). destruct Ha2 as (_ & _ & A2 & _).
  rewrite A1, A2. unfold Spec.evaluate. simpl.
  destruct (signal_probs k) as [| x s]; [lra |].
  apply ratio_mono, count_gt_antitone, Ht.
Qed.

Lemma C5_witness :
  aligned example_kernel /\
  0.3 <= 0.6 /\
  exists l1 k1 l2 k2,
    returns example_kernel 0.3 l1 k1 /\
    returns example_kernel 0.6 l2 k2 /\
    signal_efficiency l2 <= signal_efficiency l1.
Proof.
  split; [split; reflexivity |]. split; [lra |].
  apply (C5_signal_efficiency_antitone example_kernel 0.3 0.6);
    [split; reflexivity | lra].
Defined.

(** C6.  For non-empty score arrays: if every score is strictly above 0,
    then at threshold 0 the signal efficiency is 1 and the background
    rejection is 0; if every score is at most 1, then at threshold 1 the
    signal efficiency is 0 and the background rejection is 1. *)
Theorem C6_endpoints (k : Kernel) :
  aligned k ->
  signal_probs k <> [] ->
  background_probs k <> [] ->
  (Forall (fun x => x > 0) (signal_probs k) ->
   Forall (fun x => x > 0) (background_probs k) ->
   exists l k',
     returns k 0 l k' /\
     signal_efficiency l = 1 /\ background_rejection l = 0) /\
  (Forall (fun x => x <= 1) (signal_probs k) ->
   Forall (fun x => x <= 1) (background_probs k) ->
   exists l k',
     returns k 1 l k' /\
     signal_efficiency l = 0 /\ background_rejection l = 1).
Proof.
  intros Hal Hs Hb. split; intros Fs Fb.
  - run_call k 0 Hal l Hr Ha. exists l; eexists; split; [exact Hr |].
    destruct Ha as (_ & _ & A3 & A4 & _).
    rewrite A3, A4. unfold Spec.evaluate. cbn [Spec.signal_efficiency
      Spec.background_rejection].
    rewrite (count_gt_all 0 _ Fs), (count_gt_all 0 _ Fb).
    destruct (signal_probs k) as [| x s]; [congruence |].
    destruct (background_probs k) as [| y b]; [congruence |].
    rewrite !ratio_full by (simpl; lia). split; lra.
  - run_call k 1 Hal l Hr Ha. exists l; eexists; split; [exact Hr |].
    destruct Ha as (_ & _ & A3 & A4 & _).
    rewrite A3, A4. unfold Spec.evaluate. cbn [Spec.signal_efficiency
      Spec.background_rejection].
    rewrite (count_gt_none 1 _ Fs), (count_gt_none 1 _ Fb).
    destruct (signal_probs k) as [| x s]; [congruence |].
    destruct (background_probs k) as [| y b]; [congruence |].
    rewrite !ratio_zero. split; lra.
Qed.

Lemma C6_witness :
  aligned example_kernel /\
  signal_probs example_kernel <> [] /\
  background_probs example_kernel <> [] /\
  Forall (fun x => x > 0) (signal_probs example_kernel) /\
  Forall (fun x => x > 0) (background_probs example_kernel) /\
  Forall (fun x => x <= 1) (signal_probs example_kernel) /\
  Forall (fun x => x <= 1) (background_probs example_kernel) /\
  (exists l k',
     returns example_kernel 0 l k' /\
     signal_efficiency l = 1 /\ background_rejection l = 0) /\
  (exists l k',
     returns example_kernel 1 l k' /\
     signal_efficiency l = 0 /\ background_rejection l = 1).
Proof.
  assert (Hal : aligned example_kernel) by (split; reflexivity).
  assert (Hs : signal_probs example_kernel <> []) by discriminate.
  assert (Hb : background_probs example_kernel <> []) by discriminate.
  assert (Fs0 : Forall (fun x => x > 0) (signal_probs example_kernel))
    by (repeat constructor; lra).
  assert (Fb0 : Forall (fun x => x > 0) (background_probs example_kernel))
    by (repeat constructor; lra).
  assert (Fs1 : Forall (fun x => x <= 1) (signal_probs example_kernel))
    by (repeat constructor; lra).
  assert (Fb1 : Forall (fun x => x <= 1) (background_probs example_kernel))
    by (repeat constructor; lra).
  repeat (split; [assumption |]).
  destruct (C6_endpoints example_kernel Hal Hs Hb) as [H0 H1].
  split; [exact (H0 Fs0 Fb0) | exact (H1 Fs1 Fb1)].
Defined.

(** C7.  The three numbers are a function of the signal scores, the
    background scores and the threshold alone: two calls on kernels that
    hold the same score arrays (whatever their mass columns and whatever
    was displayed before) and get the same threshold give the same signal
    efficiency, background rejection and sensitivity; a call leaves the
    score arrays and the mass arrays of the kernel as they were; and so a
    second call right after the first gives the same three numbers again. *)
Theorem C7_deterministic_and_pure (k k' : Kernel) (threshold : R) :
  aligned k ->
  aligned k' ->
  signal_probs k = signal_probs k' ->
  background_probs k = background_probs k' ->
  exists l1 k1 l2 k2 l3 k3,
    returns k threshold l1 k1 /\
    returns k' threshold l2 k2 /\
    returns k1 threshold l3 k3 /\
    (signal_efficiency l2 = signal_efficiency l1 /\
     background_rejection l2 = background_rejection l1 /\
     sensitivity l2 = sensitivity l1) /\
    (signal_efficiency l3 = signal_efficiency l1 /\
     background_rejection l3 = background_rejection l1 /\
     sensitivity l3 = sensitivity l1) /\
    (signal_probs k1 = signal_probs k /\
     background_probs k1 = background_probs k /\
     mass_signal k1 = mass_signal k /\
     mass_background k1 = mass_background k).
Proof.
  intros Hal Hal' Es Eb.
  run_call k threshold Hal l1 Hr1 Ha1. run_call k' threshold Hal' l2 Hr2 Ha2.
  set (k1 := after_show k (figure_of k threshold l1)) in *.
  assert (Hal1 : aligned k1) by exact Hal.
  run_call k1 threshold Hal1 l3 Hr3 Ha3.
  exists l1, k1, l2; eexists; exists l3; eexists.
  split; [exact Hr1 | split; [exact Hr2 | split; [exact Hr3 |]]].
  destruct Ha1 as (_ & _ & A3 & A4 & A5).
  destruct Ha2 as (_ & _ & B3 & B4 & B5).
  destruct Ha3 as (_ & _ & C3 & C4 & C5).
  split; [| split].
  - rewrite A3, A4, A5, B3, B4, B5, Es, Eb. repeat split; reflexivity.
  - rewrite A3, A4, A5, C3, C4, C5. repeat split; reflexivity.
  - repeat split; reflexivity.
Qed.

Lemma C7_witness :
  aligned example_kernel /\
  aligned example_kernel_later /\
  signal_probs example_kernel = signal_probs example_kernel_later /\
  background_probs example_kernel = background_probs example_kernel_later /\
  exists l1 k1 l2 k2,
    returns example_kernel 0.5 l1 k1 /\
    returns example_kernel_later 0.5 l2 k2 /\
    sensitivity l2 = sensitivity l1 /\
    signal_probs k1 = signal_probs example_kernel.
Proof.
  assert (Hal : aligned example_kernel) by (split; reflexivity).
  assert (Hal' : aligned example_kernel_later) by (split; reflexivity).
  repeat (split; [first [assumption | reflexivity] |]).
  destruct (C7_deterministic_and_pure example_kernel example_kernel_later 0.5
              Hal Hal' eq_refl eq_refl)
    as (l1 & k1 & l2 & k2 & l3 & k3 & H1 & H2 & _ & (_ & _ & E) & _ & (F & _)).
  exists l1, k1, l2, k2. repeat split; assumption.
Defined.

(** C8.  For non-empty score arrays with every score between 0 and 1, a
    threshold outside that range does not make the call fail: above 1 the
    signal efficiency is 0 and the background rejection is 1, below 0 the
    signal efficiency is 1 and the background rejection is 0. *)
Theorem C8_threshold_out_of_range (k : Kernel) (threshold : R) :
  aligned k ->
  signal_probs k <> [] ->
  background_probs k <> [] ->
  Forall (fun x => 0 <= x <= 1) (signal_probs k) ->
  Forall (fun x => 0 <= x <= 1) (background_probs k) ->
  exists l k',
    returns k threshold l k' /\
    (threshold > 1 ->
     signal_efficiency l = 0 /\ background_rejection l = 1) /\
    (threshold < 0 ->
     signal_efficiency l = 1 /\ background_rejection l = 0).
Proof.
  intros Hal Hs Hb Fs Fb.
  run_call k threshold Hal l Hr Ha. exists l; eexists; split; [exact Hr |].
  destruct Ha as (_ & _ & A3 & A4 & _).
  rewrite A3, A4. unfold Spec.evaluate.
  cbn [Spec.signal_efficiency Spec.background_rejection].
  split; intros Ht.
  - rewrite (count_gt_none threshold (signal_probs k)),
            (count_gt_none threshold (background_probs k)).
    + destruct (signal_probs k) as [| x s]; [congruence |].
      destruct (background_probs k) as [| y b]; [congruence |].
      rewrite !ratio_zero. split; lra.
    + eapply Forall_impl; [| exact Fb]. simpl. intros; lra.
    + eapply Forall_impl; [| exact Fs]. simpl. intros; lra.
  - rewrite (count_gt_all threshold (signal_probs k)),
            (count_gt_all threshold (background_probs k)).
    + destruct (signal_probs k) as [| x s]; [congruence |].
      destruct (background_probs k) as [| y b]; [congruence |].
      rewrite !ratio_full by (simpl; lia). split; lra.
    + eapply Forall_impl; [| exact Fb]. simpl. intros; lra.
    + eapply Forall_impl; [| exact Fs]. simpl. intros; lra.
Qed.

Lemma C8_witness :
  aligned example_kernel /\
  signal_probs example_kernel <> [] /\
  background_probs example_kernel <> [] /\
  Forall (fun x => 0 <= x <= 1) (signal_probs example_kernel) /\
  Forall (fun x => 0 <= x <= 1) (background_probs example_kernel) /\
  exists l k',
    returns example_kernel 1.5 l k' /\
    (1.5 > 1 ->
     signal_efficiency l = 0 /\ background_rejection l = 1) /\
    (1.5 < 0 ->
     signal_efficiency l = 1 /\ background_rejection l = 0).
Proof.
  assert (Hal : aligned example_kernel) by (split; reflexivity).
  assert (Hs : signal_probs example_kernel <> []) by discriminate.
  assert (Hb : background_probs example_kernel <> []) by discriminate.
  assert (Fs : Forall (fun x => 0 <= x <= 1) (signal_probs example_kernel))
    by (repeat constructor; lra).
  assert (Fb : Forall (fun x => 0 <= x <= 1) (background_probs example_kernel))
    by (repeat constructor; lra).
  repeat (split; [assumption |]).
  exact (C8_threshold_out_of_range example_kernel 1.5 Hal Hs Hb Fs Fb).
Defined.

(** C9.  For a fixed background score array (non-empty, and also when it is
    empty) the background rejection does not decrease with the threshold:
    if [t1 <= t2], the rejection at [t1] is at most the rejection at [t2]. *)
Theorem C9_background_rejection_monotone (k : Kernel) (t1 t2 : R) :
  aligned k ->
  t1 <= t2 ->
  exists l1 k1 l2 k2,
    returns k t1 l1 k1 /\
    returns k t2 l2 k2 /\
    background_rejection l1 <= background_rejection l2.
Proof.
  intros Hal Ht.
  run_call k t1 Hal l1 Hr1 Ha1. run_call k t2 Hal l2 Hr2 Ha2.
  exists l1; eexists; exists l2; eexists.
  split; [exact Hr1 | split; [exact Hr2 |]].
  destruct Ha1 as (_ & _ & _ & A1 & _). destruct Ha2 as (_ & _ & _ & A2 & _).
  rewrite A1, A2. unfold Spec.evaluate. simpl.
  destruct (background_probs k) as [| x s]; [lra |].
  pose proof (ratio_mono _ _ (length (x :: s))
                (count_gt_antitone (x :: s) t1 t2 Ht)).
  lra.
Qed.

Lemma C9_witness :
  aligned example_kernel /\
  0.2 <= 0.8 /\
  exists l1 k1 l2 k2,
    returns example_kernel 0.2 l1 k1 /\
    returns example_kernel 0.8 l2 k2 /\
    background_rejection l1 <= background_rejection l2.
Proof.
  split; [split; reflexivity |]. split; [lra |].
  apply (C9_background_rejection_monotone example_kernel 0.2 0.8);
    [split; reflexivity | lra].
Defined.

Lemma count_gt_repeat (x threshold : R) (n : nat) :
  x <= threshold -> Spec.count_gt (repeat x n) threshold = O.
Proof.
  intros Hx. apply count_gt_none.
  induction n; simpl; constructor; assumption.
Qed.

Lemma aligned_crowd (n : nat) : aligned (crowd n).
Proof.
  split; simpl; [| reflexivity].
  now rewrite !repeat_length.
Qed.

Lemma crowd_sensitivity (n : nat) :
  exists l k',
    returns (crowd n) 0.5 l k' /\
    len (mass_background_cut l) = O /\
    sensitivity l = 1e5 / INR (S n).
Proof.
  run_call (crowd n) 0.5 (aligned_crowd n) l Hr Ha.
  exists l; eexists; split; [exact Hr |].
  destruct Ha as (_ & A2 & _ & _ & A5).
  rewrite A2, A5. unfold Spec.evaluate.
  cbn [Spec.background_pass_count Spec.sensitivity crowd signal_probs
       background_probs].
  assert (Hb : Spec.count_gt [0.2] 0.5 = O) by (simpl; decide_gt; reflexivity).
  assert (Hs : Spec.count_gt (0.9 :: repeat 0.1 n) 0.5 = 1%nat).
  { cbn [Spec.count_gt]. decide_gt. now rewrite count_gt_repeat by lra. }
  rewrite Hb, Hs. split; [reflexivity |].
  cbn [length]. rewrite repeat_length.
  replace (INR 0 + 1e-10) with 1e-10 by (simpl; lra).
  rewrite sqrt_offset.
  assert (Hn : 0 < INR (S n)) by (apply lt_0_INR; lia).
  change (INR 1) with 1. field. lra.
Qed.

(** C10, as stated, fails on a large signal sample: with 200000 signal
    scores of which one is above the threshold 0.5, and no background score
    above it, the sensitivity is 0.5, which does not exceed 1. *)
Lemma C10_counterexample :
  aligned large_sample /\
  signal_probs large_sample <> [] /\
  Exists (fun x => x > 0.5) (signal_probs large_sample) /\
  exists l k',
    returns large_sample 0.5 l k' /\
    len (mass_background_cut l) = O /\
    sensitivity l = 0.5 /\
    ~ sensitivity l > 1.
Proof.
  split; [apply aligned_crowd |].
  split; [discriminate |].
  split; [apply Exists_cons_hd; lra |].
  destruct (crowd_sensitivity (Z.to_nat 199999)) as (l & k' & Hr & Hb & Hsens).
  exists l, k'. split; [exact Hr |]. split; [exact Hb |].
  assert (E : sensitivity l = 0.5).
  { rewrite Hsens, S_INR, INR_IZR_INZ, Z2Nat.id by lia. lra. }
  split; [exact E | rewrite E; lra].
Qed.

Lemma aligned_crowd_three (n : nat) : aligned (crowd_three n).
Proof.
  split; simpl; [| reflexivity].
  now rewrite !repeat_length.
Qed.

Lemma count_gt_crowd_three (n : nat) :
  Spec.count_gt (signal_probs (crowd_three n)) 0.5 = 3%nat.
Proof.
  cbn [crowd_three signal_probs Spec.count_gt]. decide_gt.
  now rewrite count_gt_repeat by lra.
Qed.

Lemma length_crowd_three (n : nat) :
  INR (length (signal_probs (crowd_three n))) = INR n + 3.
Proof.
  cbn [crowd_three signal_probs length]. rewrite repeat_length, !S_INR. lra.
Qed.

(** C10, amended.  When no background score is above the threshold, the
    background pass count is 0 and the sensitivity is the signal efficiency
    over [sqrt 1e-10], which is 10^5 times the signal efficiency up to
    rounding (between 99999 and 100001 times it).  So the sensitivity is
    not bounded by 1: it exceeds 1
    exactly when the signal pass count times 10^5 is greater than the
    number of signal scores, in particular for every signal sample of fewer
    than 100000 scores with at least one score above the threshold.  (The
    margin of that comparison is at least one part in the number of signal
    scores, far more than the rounding of float64 for an array that fits in
    memory.) *)
Theorem C10_sensitivity_without_background (k : Kernel) (threshold : R) :
  aligned k ->
  Forall (fun x => ~ x > threshold) (background_probs k) ->
  exists l k',
    returns k threshold l k' /\
    len (mass_background_cut l) = O /\
    sensitivity l = signal_efficiency l / sqrt 1e-10 /\
    signal_efficiency l * 99999 <= sensitivity l <= signal_efficiency l * 100001 /\
    (sensitivity l > 1 <->
     INR (Spec.count_gt (signal_probs k) threshold) * 1e5
     > INR (length (signal_probs k))) /\
    (Exists (fun x => x > threshold) (signal_probs k) ->
     INR (length (signal_probs k)) < 1e5 ->
     sensitivity l > 1).
Proof.
  intros Hal Fb.
  assert (Hb0 : Spec.count_gt (background_probs k) threshold = O).
  { apply count_gt_none. eapply Forall_impl; [| exact Fb].
    simpl. intros x Hx. now apply Rnot_gt_le. }
  run_call k threshold Hal l Hr Ha. exists l; eexists; split; [exact Hr |].
  destruct Ha as (_ & A2 & A3 & _ & A5).
  unfold Spec.evaluate in A2, A3, A5.
  cbn [Spec.background_pass_count Spec.signal_efficiency Spec.sensitivity]
    in A2, A3, A5.
  rewrite Hb0 in A2, A5. rewrite <- A3 in A5.
  replace (INR 0 + 1e-10) with 1e-10 in A5 by (simpl; lra).
  split; [exact A2 |]. split; [exact A5 |].
  assert (E : sensitivity l = signal_efficiency l * 1e5).
  { rewrite A5, sqrt_offset. lra. }
  assert (Hiff : sensitivity l > 1 <->
                 INR (Spec.count_gt (signal_probs k) threshold) * 1e5
                 > INR (length (signal_probs k))).
  { rewrite E, A3.
    destruct (signal_probs k) as [| x s]; [simpl; split; lra |].
    pose proof (INR_length_pos x s) as Hpos.
    set (c := INR (Spec.count_gt (x :: s) threshold)) in *.
    set (n := INR (length (x :: s))) in *.
    assert (Hq : c / n * n = c) by (field; lra).
    split; intros H.
    - assert (Hq0 : 0 < c / n) by lra. nra.
    - assert (Hc : 0 < c).
      { assert (0 <= c) by apply pos_INR. nra. }
      assert (Hq0 : 0 < c / n) by (apply Rdiv_lt_0_compat; lra).
      nra. }
  assert (He : 0 <= signal_efficiency l).
  { rewrite A3. destruct (signal_probs k) as [| x s]; [lra |].
    apply ratio_bounds; [apply count_gt_le_length | simpl; lia]. }
  split; [rewrite E; lra |].
  split; [exact Hiff |].
  intros Hex Hn. apply Hiff.
  pose proof (count_gt_some threshold _ Hex) as Hc.
  apply le_INR in Hc. change (INR 1) with 1 in Hc. nra.
Qed.

Lemma C10_witness :
  (aligned example_kernel /\
   Forall (fun x => ~ x > 0.75) (background_probs example_kernel) /\
   exists l k',
     returns example_kernel 0.75 l k' /\
     len (mass_background_cut l) = O /\
     sensitivity l = signal_efficiency l / sqrt 1e-10 /\
     sensitivity l > 1) /\
  (aligned large_sample_three /\
   Forall (fun x => ~ x > 0.5) (background_probs large_sample_three) /\
   exists l k',
     returns large_sample_three 0.5 l k' /\
     len (mass_background_cut l) = O /\
     sensitivity l > 1).
Proof.
  split.
  - assert (Hal : aligned example_kernel) by (split; reflexivity).
    assert (Fb : Forall (fun x => ~ x > 0.75) (background_probs example_kernel))
      by (repeat constructor; lra).
    split; [exact Hal |]. split; [exact Fb |].
    destruct (C10_sensitivity_without_background example_kernel 0.75 Hal Fb)
      as (l & k' & Hr & H0 & E & _ & _ & Hgt).
    exists l, k'. repeat (split; [assumption |]).
    apply Hgt.
    + apply Exists_cons_hd. lra.
    + simpl. lra.
  - pose proof (aligned_crowd_three (Z.to_nat 199997)) as Hal.
    assert (Fb : Forall (fun x => ~ x > 0.5)
                   (background_probs large_sample_three))
      by (repeat constructor; lra).
    split; [exact Hal |]. split; [exact Fb |].
    destruct (C10_sensitivity_without_background large_sample_three 0.5 Hal Fb)
      as (l & k' & Hr & H0 & _ & _ & Hiff & _).
    exists l, k'. split; [exact Hr |]. split; [exact H0 |].
    apply Hiff. unfold large_sample_three.
    rewrite count_gt_crowd_three, length_crowd_three.
    rewrite (INR_IZR_INZ (Z.to_nat 199997)), Z2Nat.id by lia.
    change (INR 3) with (1 + 1 + 1). lra.
Defined.

(** * Further properties of the cell *)

(** ** The body as one equation *)

Lemma plot_interactive_cut_eq (k : Kernel) (threshold : R) :
  runStateT (plot_interactive_cut threshold) k =
  match getitem (mass_signal k) (np_gt (signal_probs k) threshold) with
  | inl e => inl e
  | inr sc =>
      match getitem (mass_background k) (np_gt (background_probs k) threshold) with
      | inl e => inl e
      | inr bc =>
          inr (locals_of k threshold sc bc,
               after_show k (figure_of k threshold (locals_of k threshold sc bc)))
      end
  end.
Proof.
  destruct k as [sp bp ms mb figs].
  unfold plot_interactive_cut, locals_of, after_show, figure_of. simpl.
  destruct (getitem ms (np_gt sp threshold)) as [e | sc]; [reflexivity |].
  simpl.
  destruct (getitem mb (np_gt bp threshold)) as [e | bc]; [reflexivity |].
  simpl.
  destruct ms as [| m0 ms]; destruct mb as [| b0 mb]; reflexivity.
Qed.

Lemma length_np_gt (a : list R) (threshold : R) :
  length (np_gt a threshold) = length a.
Proof. unfold np_gt. apply length_map. Qed.

(** Boolean indexing raises exactly when the mask has another length. *)
Lemma getitem_inr_iff {A : Type} (a : list A) (mask : list bool) :
  (exists r, getitem a mask = inr r) <-> length a = length mask.
Proof.
  split.
  - intros [r Hr].
    destruct (Nat.eq_dec (length a) (length mask)) as [E | N]; [exact E |].
    rewrite (getitem_length_mismatch a mask N) in Hr. discriminate.
  - revert mask. induction a as [| x a IH]; intros [| b mask] Hlen;
      simpl in Hlen; try discriminate.
    + exists []. reflexivity.
    + destruct (IH mask) as [r Hr]; [lia |].
      simpl. rewrite Hr. eexists. reflexivity.
Qed.

Lemma getitem_never_divides {A : Type} (a : list A) (mask : list bool) :
  getitem a mask <> inl ZeroDivisionError.
Proof.
  revert mask. induction a as [| x a IH]; intros [| b mask]; simpl;
    try discriminate.
  specialize (IH mask).
  destruct (getitem a mask) as [e | r]; [| discriminate].
  intros H. apply IH. exact H.
Qed.

(** X1.  A call raises [IndexError] exactly when a mass column and its
    score array differ in length, it ends normally exactly when both pairs
    have equal lengths, and it never raises [ZeroDivisionError], whatever
    the arrays and the threshold. *)
Theorem X1_raises_iff_misaligned (k : Kernel) (threshold : R) :
  (runStateT (plot_interactive_cut threshold) k = inl IndexError <-> ~ aligned k) /\
  ((exists l k', returns k threshold l k') <-> aligned k) /\
  runStateT (plot_interactive_cut threshold) k <> inl ZeroDivisionError.
Proof.
  unfold returns, aligned. rewrite plot_interactive_cut_eq.
  pose proof (getitem_inr_iff (mass_signal k) (np_gt (signal_probs k) threshold)) as Hs.
  pose proof (getitem_inr_iff (mass_background k)
                (np_gt (background_probs k) threshold)) as Hb.
  pose proof (getitem_never_divides (mass_signal k)
                (np_gt (signal_probs k) threshold)) as Ds.
  pose proof (getitem_never_divides (mass_background k)
                (np_gt (background_probs k) threshold)) as Db.
  rewrite !length_np_gt in *.
  destruct (getitem (mass_signal k) (np_gt (signal_probs k) threshold))
    as [es | sc].
  - destruct es; [exfalso; apply Ds; reflexivity |].
    assert (Ns : length (mass_signal k) <> length (signal_probs k)).
    { intros E. apply Hs in E. destruct E as [r Hr]. discriminate. }
    split; [| split].
    + split; [intros _ [E _]; contradiction | reflexivity].
    + split; [intros (l & k' & H); discriminate | intros [E _]; contradiction].
    + discriminate.
  - assert (Es : length (mass_signal k) = length (signal_probs k))
      by (apply Hs; eexists; reflexivity).
    destruct (getitem (mass_background k) (np_gt (background_probs k) threshold))
      as [eb | bc].
    + destruct eb; [exfalso; apply Db; reflexivity |].
      assert (Nb : length (mass_background k) <> length (background_probs k)).
      { intros E. apply Hb in E. destruct E as [r Hr]. discriminate. }
      split; [| split].
      * split; [intros _ [_ E]; contradiction | reflexivity].
      * split; [intros (l & k' & H); discriminate | intros [_ E]; contradiction].
      * discriminate.
    + assert (Eb : length (mass_background k) = length (background_probs k))
        by (apply Hb; eexists; reflexivity).
      split; [| split].
      * split; [discriminate | intros N; exfalso; apply N; split; assumption].
      * split; [intros _; split; assumption
               | intros _; eexists; eexists; reflexivity].
      * discriminate.
Qed.

Lemma X1_witness :
  ~ aligned misaligned_kernel /\
  runStateT (plot_interactive_cut 0.5) misaligned_kernel = inl IndexError.
Proof.
  assert (N : ~ aligned misaligned_kernel)
    by (intros [E _]; simpl in E; discriminate).
  split; [exact N |].
  exact (proj2 (proj1 (X1_raises_iff_misaligned misaligned_kernel 0.5)) N).
Defined.

(** ** Which events pass the cut *)

Lemma getitem_passing (masses scores : list R) (threshold : R) :
  length masses = length scores ->
  getitem masses (np_gt scores threshold) = inr (passing masses scores threshold).
Proof.
  revert scores.
  induction masses as [| m masses IH]; intros [| s scores] Hlen;
    simpl in Hlen; try discriminate; [reflexivity |].
  simpl. fold (np_gt scores threshold). rewrite IH by lia.
  unfold passing. simpl. destruct (gtb s threshold); reflexivity.
Qed.

Lemma returns_call_locals (k : Kernel) (threshold : R) :
  aligned k ->
  returns k threshold (call_locals k threshold)
    (after_show k (figure_of k threshold (call_locals k threshold))).
Proof.
  intros [Hs Hb]. unfold returns. rewrite plot_interactive_cut_eq.
  rewrite (getitem_passing _ _ _ Hs), (getitem_passing _ _ _ Hb).
  reflexivity.
Qed.

Lemma passing_length (masses scores : list R) (threshold : R) :
  length masses = length scores ->
  length (passing masses scores threshold) = Spec.count_gt scores threshold.
Proof.
  revert scores.
  induction masses as [| m masses IH]; intros [| s scores] Hlen;
    simpl in Hlen; try discriminate; [reflexivity |].
  unfold passing in *. simpl. unfold gtb at 1.
  destruct (Rgt_dec s threshold); simpl; rewrite IH by lia; reflexivity.
Qed.

Lemma gtb_true (x threshold : R) : gtb x threshold = true <-> x > threshold.
Proof.
  unfold gtb. destruct (Rgt_dec x threshold); split; intros H;
    try assumption; try reflexivity; try discriminate; contradiction.
Qed.

Lemma gtb_false (x threshold : R) : gtb x threshold = false <-> x <= threshold.
Proof.
  unfold gtb. destruct (Rgt_dec x threshold); split; intros H;
    try reflexivity; try discriminate; lra.
Qed.

Lemma passing_subseq (masses scores : list R) (t1 t2 : R) :
  t1 <= t2 ->
  subseq (passing masses scores t2) (passing masses scores t1).
Proof.
  intros Ht. revert scores.
  induction masses as [| m masses IH]; intros [| s scores];
    try (simpl; constructor).
  specialize (IH scores). unfold passing in *. simpl.
  destruct (gtb s t2) eqn:E2; destruct (gtb s t1) eqn:E1; simpl.
  - apply subseq_take, IH.
  - apply gtb_true in E2. apply gtb_false in E1. lra.
  - apply subseq_skip, IH.
  - exact IH.
Qed.





(** X3.  Raising the threshold only takes events out of the two mass
    histograms: for [t1 <= t2] the masses kept at [t2] are a subsequence of
    the masses kept at [t1]. *)
Theorem X3_higher_threshold_keeps_fewer_events (k : Kernel) (t1 t2 : R) :
  aligned k ->
  t1 <= t2 ->
  exists l1 k1 l2 k2,
    returns k t1 l1 k1 /\
    returns k t2 l2 k2 /\
    subseq (mass_signal_cut l2) (mass_signal_cut l1) /\
    subseq (mass_background_cut l2) (mass_background_cut l1).
Proof.
  intros Hal Ht.
  exists (call_locals k t1); eexists; exists (call_locals k t2); eexists.
  split; [exact (returns_call_locals k t1 Hal) |].
  split; [exact (returns_call_locals k t2 Hal) |].
  split; apply passing_subseq; exact Ht.
Qed.

Lemma X3_witness :
  aligned example_kernel /\
  0.25 <= 0.75 /\
  exists l1 k1 l2 k2,
    returns example_kernel 0.25 l1 k1 /\
    returns example_kernel 0.75 l2 k2 /\
    subseq (mass_signal_cut l2) (mass_signal_cut l1) /\
    subseq (mass_background_cut l2) (mass_background_cut l1).
Proof.
  split; [split; reflexivity |]. split; [lra |].
  apply (X3_higher_threshold_keeps_fewer_events example_kernel 0.25 0.75);
    [split; reflexivity | lra].
Defined.



(** ** The size of the sensitivity *)

Lemma spec_efficiency_bounds (sp bp : list R) (threshold : R) :
  0 <= Spec.signal_efficiency (Spec.evaluate sp bp threshold) <= 1.
Proof.
  unfold Spec.evaluate. simpl.
  destruct sp as [| x s]; [lra |].
  apply ratio_bounds; [apply count_gt_le_length | simpl; lia].
Qed.

Lemma divisor_at_least_offset (n : nat) : 1e-5 <= sqrt (INR n + 1e-10).
Proof.
  rewrite <- sqrt_offset. apply sqrt_le_1_alt.
  pose proof (pos_INR n). lra.
Qed.

Lemma divisor_at_least_one (n : nat) : (1 <= n)%nat -> 1 <= sqrt (INR n + 1e-10).
Proof.
  intros Hn. rewrite <- sqrt_1 at 1. apply sqrt_le_1_alt.
  apply le_INR in Hn. change (INR 1) with 1 in Hn. lra.
Qed.

(** X5.  The sensitivity is never negative and never above 10^5 times the
    signal efficiency, so never above 10^5; and as soon as one background
    score is above the threshold it is at most the signal efficiency, so at
    most 1. *)
Theorem X5_sensitivity_bounds (k : Kernel) (threshold : R) :
  aligned k ->
  exists l k',
    returns k threshold l k' /\
    0 <= sensitivity l <= signal_efficiency l * 1e5 /\
    sensitivity l <= 1e5 /\
    (Exists (fun x => x > threshold) (background_probs k) ->
     sensitivity l <= signal_efficiency l /\ sensitivity l <= 1).
Proof.
  intros Hal. run_call k threshold Hal l Hr Ha.
  exists l; eexists; split; [exact Hr |].
  destruct Ha as (_ & _ & A3 & _ & A5).
  pose proof (spec_efficiency_bounds (signal_probs k) (background_probs k)
                threshold) as He.
  rewrite <- A3 in He.
  unfold Spec.evaluate in A3, A5.
  cbn [Spec.signal_efficiency Spec.sensitivity] in A3, A5.
  rewrite <- A3 in A5.
  set (n := Spec.count_gt (background_probs k) threshold) in *.
  pose proof (divisor_at_least_offset n) as Hd.
  set (d := sqrt (INR n + 1e-10)) in *.
  set (e := signal_efficiency l) in *.
  assert (Hq : sensitivity l * d = e) by (rewrite A5; field; lra).
  assert (Hq0 : 0 <= sensitivity l).
  { rewrite A5. apply Rmult_le_pos; [lra |].
    left. apply Rinv_0_lt_compat. lra. }
  split; [split; [exact Hq0 | nra] |].
  split; [nra |].
  intros Hex.
  assert (Hd1 : 1 <= d) by (apply divisor_at_least_one, count_gt_some, Hex).
  split; nra.
Qed.

Lemma X5_witness :
  aligned example_kernel /\
  Exists (fun x => x > 0.5) (background_probs example_kernel) /\
  exists l k',
    returns example_kernel 0.5 l k' /\
    sensitivity l <= signal_efficiency l /\ sensitivity l <= 1.
Proof.
  assert (Hal : aligned example_kernel) by (split; reflexivity).
  split; [exact Hal |].
  assert (Hex : Exists (fun x => x > 0.5) (background_probs example_kernel))
    by (apply Exists_cons_hd; lra).
  split; [exact Hex |].
  destruct (X5_sensitivity_bounds example_kernel 0.5 Hal)
    as (l & k' & Hr & _ & _ & H).
  exists l, k'. split; [exact Hr | exact (H Hex)].
Defined.

(** ** The order of the events does not matter *)

Lemma count_gt_perm (s s' : list R) (threshold : R) :
  Permutation s s' -> Spec.count_gt s threshold = Spec.count_gt s' threshold.
Proof.
  induction 1 as [| x l l' _ IH | x y l | l l' l'' _ IH1 _ IH2]; simpl.
  - reflexivity.
  - rewrite IH. reflexivity.
  - destruct (Rgt_dec x threshold), (Rgt_dec y threshold); reflexivity.
  - congruence.
Qed.

Lemma evaluate_perm (sp sp' bp bp' : list R) (threshold : R) :
  Permutation sp sp' -> Permutation bp bp' ->
  Spec.evaluate sp bp threshold = Spec.evaluate sp' bp' threshold.
Proof.
  intros Ps Pb. unfold Spec.evaluate.
  rewrite (count_gt_perm _ _ threshold Ps), (count_gt_perm _ _ threshold Pb).
  rewrite (Permutation_length Ps), (Permutation_length Pb).
  destruct sp as [| x s]; destruct sp' as [| x' s'];
    try (apply Permutation_nil in Ps; discriminate);
    try (apply Permutation_sym, Permutation_nil in Ps; discriminate);
    destruct bp as [| y b]; destruct bp' as [| y' b'];
    try (apply Permutation_nil in Pb; discriminate);
    try (apply Permutation_sym, Permutation_nil in Pb; discriminate);
    reflexivity.
Qed.

(** X6.  The three numbers do not depend on the order of the events: two
    kernels whose signal scores are a rearrangement of each other, and
    whose background scores are too, give the same signal efficiency,
    background rejection and sensitivity at every threshold. *)
Theorem X6_order_of_events_irrelevant (k k' : Kernel) (threshold : R) :
  aligned k ->
  aligned k' ->
  Permutation (signal_probs k) (signal_probs k') ->
  Permutation (background_probs k) (background_probs k') ->
  exists l1 k1 l2 k2,
    returns k threshold l1 k1 /\
    returns k' threshold l2 k2 /\
    signal_efficiency l2 = signal_efficiency l1 /\
    background_rejection l2 = background_rejection l1 /\
    sensitivity l2 = sensitivity l1.
Proof.
  intros Hal Hal' Ps Pb.
  run_call k threshold Hal l1 Hr1 Ha1. run_call k' threshold Hal' l2 Hr2 Ha2.
  exists l1; eexists; exists l2; eexists.
  split; [exact Hr1 | split; [exact Hr2 |]].
  destruct Ha1 as (_ & _ & A3 & A4 & A5).
  destruct Ha2 as (_ & _ & B3 & B4 & B5).
  rewrite A3, A4, A5, B3, B4, B5.
  rewrite (evaluate_perm _ _ _ _ threshold Ps Pb).
  repeat split; reflexivity.
Qed.

Lemma X6_witness :
  aligned example_kernel /\
  aligned example_kernel_shuffled /\
  Permutation (signal_probs example_kernel)
    (signal_probs example_kernel_shuffled) /\
  Permutation (background_probs example_kernel)
    (background_probs example_kernel_shuffled) /\
  exists l1 k1 l2 k2,
    returns example_kernel 0.5 l1 k1 /\
    returns example_kernel_shuffled 0.5 l2 k2 /\
    signal_efficiency l2 = signal_efficiency l1 /\
    background_rejection l2 = background_rejection l1 /\
    sensitivity l2 = sensitivity l1.
Proof.
  assert (Hal : aligned example_kernel) by (split; reflexivity).
  assert (Hal' : aligned example_kernel_shuffled) by (split; reflexivity).
  assert (Ps : Permutation (signal_probs example_kernel)
                 (signal_probs example_kernel_shuffled)).
  { simpl. unfold example_signal.
    apply perm_trans with [0.9; 0.4; 0.8; 0.2].
    - apply perm_skip. apply perm_swap.
    - apply perm_trans with [0.4; 0.9; 0.8; 0.2]; [apply perm_swap |].
      do 2 apply perm_skip. apply perm_swap. }
  assert (Pb : Permutation (background_probs example_kernel)
                 (background_probs example_kernel_shuffled)).
  { simpl. unfold example_background.
    change [0.05; 0.1; 0.3; 0.7] with (rev [0.7; 0.3; 0.1; 0.05]).
    apply Permutation_rev. }
  repeat (split; [assumption |]).
  exact (X6_order_of_events_irrelevant example_kernel example_kernel_shuffled
           0.5 Hal Hal' Ps Pb).
Defined.

(** ** Calls in a row *)

Lemma calls_run (k : Kernel) (ts : list R) :
  aligned k ->
  forall figs,
    runStateT (calls ts) (with_displayed k figs) =
    inr (map (call_locals k) ts,
         with_displayed k
           (figs ++ map (fun t => figure_of k t (call_locals k t)) ts)).
Proof.
  intros Hal.
  induction ts as [| t ts IH]; intros figs.
  - simpl. rewrite app_nil_r. reflexivity.
  - assert (Hal' : aligned (with_displayed k figs)) by exact Hal.
    pose proof (returns_call_locals (with_displayed k figs) t Hal') as Hr.
    unfold returns in Hr.
    change (runStateT (calls (t :: ts)) (with_displayed k figs))
      with (match runStateT (plot_interactive_cut t) (with_displayed k figs) with
            | inl e => inl e
            | inr (l, k1) =>
                match runStateT (calls ts) k1 with
                | inl e => inl e
                | inr (ls, k2) => inr (l :: ls, k2)
                end
            end).
    rewrite Hr.
    change (after_show (with_displayed k figs)
              (figure_of (with_displayed k figs) t
                 (call_locals (with_displayed k figs) t)))
      with (with_displayed k (figs ++ [figure_of k t (call_locals k t)])).
    rewrite IH. rewrite <- app_assoc. reflexivity.
Qed.

(** X7.  Calls do not remember each other.  For any values [ts] the slider
    takes, the calls made in a row on aligned globals all end normally; the
    locals of each call are those of a single call at that threshold on the
    globals as they were at the start; the four arrays are unchanged at the
    end; and the output area has gained one figure for each call, in order,
    with its cut line at that threshold. *)
Theorem X7_calls_in_a_row (k : Kernel) (ts : list R) :
  aligned k ->
  exists ls k' figs,
    runStateT (calls ts) k = inr (ls, k') /\
    Forall2 (fun t l => exists k1, returns k t l k1) ts ls /\
    same_arrays k k' /\
    displayed k' = displayed k ++ figs /\
    map fig_axvline figs = ts /\
    map fig_sensitivity figs = map sensitivity ls.
Proof.
  intros Hal.
  exists (map (call_locals k) ts).
  exists (with_displayed k
            (displayed k ++ map (fun t => figure_of k t (call_locals k t)) ts)).
  exists (map (fun t => figure_of k t (call_locals k t)) ts).
  split; [| split; [| split; [| split; [| split]]]].
  - rewrite <- (calls_run k ts Hal (displayed k)).
    destruct k; reflexivity.
  - induction ts as [| t ts IH]; simpl; constructor; [| exact IH].
    eexists. apply returns_call_locals, Hal.
  - repeat split; reflexivity.
  - reflexivity.
  - rewrite map_map. simpl. apply map_id.
  - rewrite !map_map. reflexivity.
Qed.

Lemma X7_witness :
  aligned example_kernel /\
  exists ls k' figs,
    runStateT (calls [0.5; 0.51; 0.5]) example_kernel = inr (ls, k') /\
    Forall2 (fun t l => exists k1, returns example_kernel t l k1)
      [0.5; 0.51; 0.5] ls /\
    same_arrays example_kernel k' /\
    displayed k' = displayed example_kernel ++ figs /\
    map fig_axvline figs = [0.5; 0.51; 0.5] /\
    map fig_sensitivity figs = map sensitivity ls.
Proof.
  split; [split; reflexivity |].
  apply (X7_calls_in_a_row example_kernel [0.5; 0.51; 0.5]).
  split; reflexivity.
Defined.

(** * The cells before the function *)

(** ** Selecting rows with a boolean column *)

Ltac decide_R :=
  repeat match goal with
         | |- context [Rgt_dec ?x ?y] => destruct (Rgt_dec x y); try lra
         | |- context [Rlt_dec ?x ?y] => destruct (Rlt_dec x y); try lra
         | |- context [Req_dec_T ?x ?y] => destruct (Req_dec_T x y); try lra
         end.

Lemma np_and_map {A : Type} (f g : A -> bool) (l : list A) :
  np_and (map f l) (map g l) = map (fun x => f x && g x) l.
Proof. induction l as [| x l IH]; simpl; [| rewrite IH]; reflexivity. Qed.

Lemma getitem_map_filter {A : Type} (p : A -> bool) (l : list A) :
  getitem l (map p l) = inr (filter p l).
Proof.
  induction l as [| x l IH]; simpl; [reflexivity |].
  rewrite IH. destruct (p x); reflexivity.
Qed.

Lemma getitem_Forall {A : Type} (P : A -> Prop) (a r : list A) (mask : list bool) :
  getitem a mask = inr r -> Forall P a -> Forall P r.
Proof.
  revert mask r.
  induction a as [| x a IH]; intros [| b mask] r H F; simpl in H;
    try discriminate.
  - injection H as <-. constructor.
  - destruct (getitem a mask) as [e | r'] eqn:E; [discriminate |].
    injection H as <-. inversion F as [| ? ? Hx Fa]; subst.
    specialize (IH mask r' E Fa).
    destruct b; [constructor |]; assumption.
Qed.

Lemma cut_background_eq (df : DataFrame) :
  cut_background df = inr (filter in_mass_window df).
Proof.
  unfold cut_background, np_gt, np_lt. rewrite !map_map, np_and_map.
  apply getitem_map_filter.
Qed.

Lemma cut_signal_eq (df : DataFrame) :
  cut_signal df = inr (filter is_signal df).
Proof.
  unfold cut_signal, np_eq. rewrite !map_map, np_and_map.
  apply getitem_map_filter.
Qed.

Lemma in_mass_window_true (e : Event) :
  in_mass_window e = true <-> 4.5 < Zp_M_beforeFit e < 5.5.
Proof.
  unfold in_mass_window, gtb, float_lt.
  destruct (Rgt_dec (Zp_M_beforeFit e) 4.5), (Rlt_dec (Zp_M_beforeFit e) 5.5);
    simpl; split; intros H; try reflexivity; try discriminate; lra.
Qed.

Lemma is_signal_true (e : Event) :
  is_signal e = true <->
  Zp_tau_0_dau_genMotherPDG e = 26 /\ Zp_tau_1_dau_genMotherPDG e = 26.
Proof.
  unfold is_signal, float_eq.
  destruct (Req_dec_T (Zp_tau_0_dau_genMotherPDG e) 26),
           (Req_dec_T (Zp_tau_1_dau_genMotherPDG e) 26);
    simpl; split; intros H; try reflexivity; try discriminate;
    try (split; assumption); destruct H; contradiction.
Qed.

Lemma filter_idem {A : Type} (p : A -> bool) (l : list A) :
  filter p (filter p l) = filter p l.
Proof.
  induction l as [| x l IH]; simpl; [reflexivity |].
  destruct (p x) eqn:E; simpl; rewrite ?E, IH; reflexivity.
Qed.

(** X8.  The mass cut on a background frame never raises.  It keeps, in
    their order, exactly the rows with a mass strictly between 4.5 and 5.5
    (a mass of 4.5 or 5.5 is cut away), and running the cell again on its
    own result changes nothing. *)
Theorem X8_background_mass_cut (df : DataFrame) :
  exists kept,
    cut_background df = inr kept /\
    (forall e, In e kept <-> In e df /\ 4.5 < Zp_M_beforeFit e < 5.5) /\
    kept = filter in_mass_window df /\
    (length kept <= length df)%nat /\
    cut_background kept = inr kept.
Proof.
  exists (filter in_mass_window df).
  split; [apply cut_background_eq |].
  split; [| split; [reflexivity | split]].
  - intros e. rewrite filter_In, in_mass_window_true. reflexivity.
  - apply filter_length_le.
  - rewrite cut_background_eq, filter_idem. reflexivity.
Qed.

(** X9.  The truth cut on a signal frame never raises.  It keeps, in their
    order, exactly the rows whose two mother codes are both 26, and running
    the cell again on its own result changes nothing. *)
Theorem X9_signal_truth_cut (df : DataFrame) :
  exists kept,
    cut_signal df = inr kept /\
    (forall e, In e kept <->
       In e df /\
       Zp_tau_0_dau_genMotherPDG e = 26 /\ Zp_tau_1_dau_genMotherPDG e = 26) /\
    kept = filter is_signal df /\
    (length kept <= length df)%nat /\
    cut_signal kept = inr kept.
Proof.
  exists (filter is_signal df).
  split; [apply cut_signal_eq |].
  split; [| split; [reflexivity | split]].
  - intros e. rewrite filter_In, is_signal_true. reflexivity.
  - apply filter_length_le.
  - rewrite cut_signal_eq, filter_idem. reflexivity.
Qed.

(** ** The training sample *)

Lemma combine_app_same {A B : Type} (l1 l2 : list A) (r1 r2 : list B) :
  length l1 = length r1 ->
  combine (l1 ++ l2) (r1 ++ r2) = combine l1 r1 ++ combine l2 r2.
Proof.
  revert r1. induction l1 as [| x l1 IH]; intros [| y r1] Hlen;
    simpl in Hlen; try discriminate; [reflexivity |].
  simpl. rewrite IH by lia. reflexivity.
Qed.

Lemma combine_map_repeat {A B C : Type} (f : A -> B) (c : C) (l : list A) :
  combine (map f l) (repeat c (length l)) = map (fun e => (f e, c)) l.
Proof. induction l as [| x l IH]; simpl; [| rewrite IH]; reflexivity. Qed.

(** X10.  The rows and the labels of the training sample line up: [X] and
    [y] have the same length, and row by row [X] paired with [y] is every
    signal row with label 1 followed by every background row with label
    0. *)
Theorem X10_labels_follow_rows (signal_data background_data : DataFrame) :
  let X := fst (training_sample signal_data background_data) in
  let y := snd (training_sample signal_data background_data) in
  length X = length y /\
  length X = (length signal_data + length background_data)%nat /\
  combine X y =
    map (fun e => (raw e, 1)) signal_data ++
    map (fun e => (raw e, 0)) background_data.
Proof.
  unfold training_sample, np_ones, np_zeros, len. simpl.
  split; [| split].
  - rewrite !length_app, !length_map, !repeat_length. reflexivity.
  - rewrite !length_app, !length_map. reflexivity.
  - rewrite combine_app_same by (rewrite length_map, repeat_length; reflexivity).
    rewrite !combine_map_repeat. reflexivity.
Qed.

(** ** From the application sample to the globals *)

Lemma passing_Forall (P : R -> Prop) (masses scores : list R) (threshold : R) :
  Forall P masses -> Forall P (passing masses scores threshold).
Proof.
  intros F. revert scores.
  induction F as [| m masses Hm _ IH]; intros [| s scores];
    try (unfold passing; simpl; constructor).
  specialize (IH scores). unfold passing in *. simpl.
  destruct (gtb s threshold); simpl; [constructor |]; assumption.
Qed.

(** X11.  Whenever the preparation cells run through (the library calls
    returning one row for each row they get), the globals they leave are
    aligned, so [plot_interactive_cut] ends normally at every threshold;
    and every background mass it draws lies strictly between 4.5 and 5.5,
    the range of the mass histogram. *)
Theorem X11_prepared_globals
    (scaler_transform : list (list R) -> option (list (list R)))
    (mlp_predict : list (list R) -> option (list R))
    (mlp_predict_proba : list (list R) -> option (list (R * R)))
    (app_signal_data app_background_data : DataFrame) (k : Kernel) :
  (forall X Y, scaler_transform X = Some Y -> length Y = length X) ->
  (forall X P, mlp_predict_proba X = Some P -> length P = length X) ->
  prepare scaler_transform mlp_predict mlp_predict_proba
    app_signal_data app_background_data = Some k ->
  aligned k /\
  Forall (fun m => 4.5 < m < 5.5) (mass_background k) /\
  forall threshold,
    exists l k',
      returns k threshold l k' /\
      Forall (fun m => 4.5 < m < 5.5) (mass_background_cut l).
Proof.
  intros Htr Hpp Hprep.
  unfold prepare in Hprep.
  rewrite cut_signal_eq, cut_background_eq in Hprep.
  set (s := filter is_signal app_signal_data) in *.
  set (b := filter in_mass_window app_background_data) in *.
  destruct (scaler_transform (map raw s)) as [Xs |] eqn:Es; [| discriminate].
  destruct (scaler_transform (map raw b)) as [Xb |] eqn:Eb; [| discriminate].
  destruct (mlp_predict Xs) as [ps |]; [| discriminate].
  destruct (mlp_predict Xb) as [pb |]; [| discriminate].
  destruct (mlp_predict_proba Xs) as [Ps |] eqn:EPs; [| discriminate].
  destruct (mlp_predict_proba Xb) as [Pb |] eqn:EPb; [| discriminate].
  injection Hprep as <-.
  assert (Hal : aligned
                  {| signal_probs := map snd Ps;
                     background_probs := map snd Pb;
                     mass_signal := map Zp_M_beforeFit s;
                     mass_background := map Zp_M_beforeFit b;
                     displayed := [] |}).
  { split; simpl; rewrite !length_map.
    - rewrite (Hpp _ _ EPs), (Htr _ _ Es), length_map. reflexivity.
    - rewrite (Hpp _ _ EPb), (Htr _ _ Eb), length_map. reflexivity. }
  assert (Hwin : Forall (fun m => 4.5 < m < 5.5) (map Zp_M_beforeFit b)).
  { apply Forall_map. apply Forall_forall. intros e He.
    apply filter_In in He. apply in_mass_window_true, He. }
  split; [exact Hal | split; [exact Hwin |]].
  intros threshold. eexists; eexists.
  split; [exact (returns_call_locals _ threshold Hal) |].
  simpl. apply passing_Forall, Hwin.
Qed.

Lemma toy_transform_rows (X Y : list (list R)) :
  toy_transform X = Some Y -> length Y = length X.
Proof.
  destruct X as [| x X]; simpl; [discriminate |].
  intros H. injection H as <-. simpl. rewrite length_map. reflexivity.
Qed.

Lemma toy_predict_proba_rows (X : list (list R)) (P : list (R * R)) :
  toy_predict_proba X = Some P -> length P = length X.
Proof.
  destruct X as [| x X]; simpl; [discriminate |].
  intros H. injection H as <-. simpl. rewrite length_map. reflexivity.
Qed.

Lemma prepare_sample :
  prepare toy_transform toy_predict toy_predict_proba
    sample_signal_frame sample_background_frame = Some prepared_sample.
Proof.
  unfold prepare. rewrite cut_signal_eq, cut_background_eq.
  unfold sample_signal_frame, sample_background_frame, is_signal,
    in_mass_window, float_eq, float_lt, gtb. simpl.
  decide_R. simpl. reflexivity.
Qed.

Lemma X11_witness :
  (forall X Y, toy_transform X = Some Y -> length Y = length X) /\
  (forall X P, toy_predict_proba X = Some P -> length P = length X) /\
  prepare toy_transform toy_predict toy_predict_proba
    sample_signal_frame sample_background_frame = Some prepared_sample /\
  aligned prepared_sample /\
  Forall (fun m => 4.5 < m < 5.5) (mass_background prepared_sample) /\
  forall threshold,
    exists l k',
      returns prepared_sample threshold l k' /\
      Forall (fun m => 4.5 < m < 5.5) (mass_background_cut l).
Proof.
  split; [exact toy_transform_rows |].
  split; [exact toy_predict_proba_rows |].
  split; [exact prepare_sample |].
  exact (X11_prepared_globals toy_transform toy_predict toy_predict_proba
           sample_signal_frame sample_background_frame prepared_sample
           toy_transform_rows toy_predict_proba_rows prepare_sample).
Defined.

(** ** The scores of the test sample, by label *)

(** X12.  When the test labels are all 0 or 1 and there is one score for
    each label, the two histograms of the test scores share the scores out
    between them: no score is lost and none is drawn twice.  With another
    number of scores than labels the indexing raises [IndexError]. *)
Theorem X12_test_scores_partition (y_prob y_test : list R) :
  (length y_prob = length y_test ->
   Forall (fun y => y = 1 \/ y = 0) y_test ->
   exists scores_signal scores_background,
     test_scores_by_label y_prob y_test =
       inr (scores_signal, scores_background) /\
     Permutation (scores_signal ++ scores_background) y_prob /\
     (length scores_signal + length scores_background = length y_prob)%nat) /\
  (length y_prob <> length y_test ->
   test_scores_by_label y_prob y_test = inl IndexError).
Proof.
  split.
  - revert y_test.
    induction y_prob as [| p y_prob IH]; intros [| y y_test] Hlen F;
      simpl in Hlen; try discriminate.
    + exists [], []. repeat split; constructor.
    + inversion F as [| ? ? Hy Fy]; subst.
      destruct (IH y_test) as (sg & bg & Hsplit & Hperm & Hsum);
        [lia | exact Fy |].
      unfold test_scores_by_label in *. simpl.
      fold (np_eq y_test 1). fold (np_eq y_test 0).
      destruct (getitem y_prob (np_eq y_test 1)) as [e | sg']; [discriminate |].
      destruct (getitem y_prob (np_eq y_test 0)) as [e | bg']; [discriminate |].
      injection Hsplit as -> ->.
      unfold float_eq.
      destruct Hy as [-> | ->]; decide_R.
      * exists (p :: sg), bg. split; [reflexivity |].
        split; [simpl; now constructor | simpl; lia].
      * exists sg, (p :: bg). split; [reflexivity |].
        split; [| simpl; lia].
        apply Permutation_sym, Permutation_cons_app, Permutation_sym, Hperm.
  - intros Hlen. unfold test_scores_by_label.
    rewrite getitem_length_mismatch; [reflexivity |].
    unfold np_eq. now rewrite length_map.
Qed.

Lemma X12_witness :
  length sample_y_prob = length sample_y_test /\
  Forall (fun y => y = 1 \/ y = 0) sample_y_test /\
  exists scores_signal scores_background,
    test_scores_by_label sample_y_prob sample_y_test =
      inr (scores_signal, scores_background) /\
    Permutation (scores_signal ++ scores_background) sample_y_prob /\
    (length scores_signal + length scores_background
     = length sample_y_prob)%nat.
Proof.
  assert (F : Forall (fun y => y = 1 \/ y = 0) sample_y_test)
    by (repeat constructor; lra).
  split; [reflexivity |]. split; [exact F |].
  exact (proj1 (X12_test_scores_partition sample_y_prob sample_y_test) eq_refl F).
Defined.

(** ** The rejection as a fraction of events *)



